(** * WhatsApp link generator: the record store of [src/app/page.tsx]

    A shallow embedding of the page component's logic: the mount effect that
    loads and expires the stored history, and [handleConvert], which turns
    the lines of the input field into [wa.me] links and persists them.

    Conventions of the embedding:
    - a JavaScript string is the list of its UTF-16 code units;
    - a JavaScript [number] is an exact rational: the sums and differences
      the program forms are taken without binary64 rounding;
    - [localStorage] is a finite map from keys to values;
    - the host functions [JSON.parse], [JSON.stringify], [Date.now] and
      [Math.random] are parameters of the operations. *)

From Stdlib Require Import ZArith NArith QArith String Ascii List Lia.
From Stdlib Require Import DecimalString Floats Sorted Lqa.
From stdpp Require Import base option list gmap.

Set Warnings "-register-all".
Local Open Scope N_scope.

(** ** JavaScript strings *)

Definition code_unit := N.
Abbreviation jsstring := (list code_unit).

(** A string literal of the source, as code units. *)
Definition js (s : string) : jsstring :=
  List.map N_of_ascii (list_ascii_of_string s).

(** [WhiteSpace] and [LineTerminator] of ECMAScript: what [trim] strips. *)
Definition isWhiteSpace (c : code_unit) : bool :=
  (c =? 9) || (c =? 10) || (c =? 11) || (c =? 12) || (c =? 13) || (c =? 32)
  || (c =? 160) || (c =? 5760) || ((8192 <=? c) && (c <=? 8202))
  || (c =? 8232) || (c =? 8233) || (c =? 8239) || (c =? 8287)
  || (c =? 12288) || (c =? 65279).

Fixpoint trimStart (s : jsstring) : jsstring :=
  match s with
  | [] => []
  | c :: s' => if isWhiteSpace c then trimStart s' else s
  end.

Definition trimEnd (s : jsstring) : jsstring :=
  rev (trimStart (rev s)).

(** [String.prototype.trim] *)
Definition trim (s : jsstring) : jsstring := trimEnd (trimStart s).

(** [String.prototype.split] with a one-character separator: the pieces
    between the separators, in order; never the empty list. *)
Fixpoint split (sep : code_unit) (s : jsstring) : list jsstring :=
  match s with
  | [] => [[]]
  | c :: s' =>
      if c =? sep then [] :: split sep s'
      else match split sep s' with
           | l :: ls => (c :: l) :: ls
           | [] => [[c]]
           end
  end.

(** [\d] of a regular expression: the ASCII digits. *)
Definition isDigit (c : code_unit) : bool := (48 <=? c) && (c <=? 57).

Definition plus_sign : code_unit := 43.
Definition newline : code_unit := 10.

(** The character class [[^\d+]]: anything but a digit or a plus sign. *)
Definition class_not_digit_plus (c : code_unit) : bool :=
  negb (isDigit c || (c =? plus_sign)).

(** [String.prototype.replace] with a global one-character class pattern:
    every code unit of the class is replaced, the others are copied. *)
Fixpoint replace_class (cls : code_unit -> bool) (by_ : jsstring)
    (s : jsstring) : jsstring :=
  match s with
  | [] => []
  | c :: s' =>
      (if cls c then by_ else [c]) ++ replace_class cls by_ s'
  end.

(** [originalNumber.replace(/[^\d+]/g, '')] *)
Definition sanitize (originalNumber : jsstring) : jsstring :=
  replace_class class_not_digit_plus [] originalNumber.

Definition link_prefix : jsstring := js "https://wa.me/".

(** The template literal [`https://wa.me/${sanitizedNumber}`]. *)
Definition make_link (sanitizedNumber : jsstring) : jsstring :=
  link_prefix ++ sanitizedNumber.

(** ** Records and the application state *)

Definition number := Q.

Record WhatsAppRecord := mkRecord {
  id : number;
  original : jsstring;
  link : jsstring;
  timestamp : number
}.

Definition LOCAL_STORAGE_KEY : jsstring := js "whatsAppLinkHistory".

Definition EXPIRATION_TIME_MS : number := inject_Z (24 * 60 * 60 * 1000).

(** [x < y] on numbers, as a boolean. *)
Definition number_ltb (x y : number) : bool :=
  match (x ?= y)%Q with
  | Lt => true
  | _ => false
  end.

(** The two [useState] cells of the component and the browser's storage. *)
Record AppState := mkState {
  inputNumbers : jsstring;
  records : list WhatsAppRecord;
  localStorage : gmap jsstring jsstring
}.

(** The state the component is mounted in: both cells at their initial
    value, storage as the browser holds it. *)
Definition initialState (ls : gmap jsstring jsstring) : AppState :=
  {| inputNumbers := []; records := []; localStorage := ls |}.

(** The callback of [parsedRecords.filter]. *)
Definition still_valid (currentTime : Z) (record : WhatsAppRecord) : bool :=
  number_ltb (inject_Z currentTime - timestamp record)%Q EXPIRATION_TIME_MS.

(** The lines of the input that become records: trimmed, non-empty. *)
Definition input_lines (input : jsstring) : list jsstring :=
  List.filter (fun line => (0 <? length line)%nat)
    (List.map trim (split newline input)).

(** The record built for one line; [r] is what [Math.random()] returned. *)
Definition make_record (currentTime : Z) (r : number)
    (originalNumber : jsstring) : WhatsAppRecord :=
  let sanitizedNumber := sanitize originalNumber in
  {| id := (inject_Z currentTime + r)%Q;
     original := originalNumber;
     link := make_link sanitizedNumber;
     timestamp := inject_Z currentTime |}.

(** The id of a record as the host computes it: the sum rounded to
    binary64. *)
Definition binary64_id (currentTime r : float) : float :=
  (currentTime + r)%float.

(** [newRecords] of [handleConvert]. [random i] is the result of the
    [i]-th call of [Math.random()] made by the handler. *)
Definition newRecords (currentTime : Z) (random : nat -> number)
    (input : jsstring) : list WhatsAppRecord :=
  imap (fun i originalNumber => make_record currentTime (random i) originalNumber)
    (input_lines input).

Section Host.

(** [JSON.parse] at the declared type [WhatsAppRecord[]]: [None] when the
    [try] block throws on the stored text. *)
Variable JSON_parse : jsstring -> option (list WhatsAppRecord).
Variable JSON_stringify : list WhatsAppRecord -> jsstring.

(** The effect run once on mount. *)
Definition mountEffect (currentTime : Z) (st : AppState) : AppState :=
  match localStorage st !! LOCAL_STORAGE_KEY with
  | Some storedData =>
      if (0 <? length storedData)%nat then
        match JSON_parse storedData with
        | Some parsedRecords =>
            let validRecords :=
              List.filter (still_valid currentTime) parsedRecords in
            {| inputNumbers := inputNumbers st;
               records := validRecords;
               localStorage :=
                 <[LOCAL_STORAGE_KEY := JSON_stringify validRecords]>
                   (localStorage st) |}
        | None =>
            {| inputNumbers := inputNumbers st;
               records := records st;
               localStorage := delete LOCAL_STORAGE_KEY (localStorage st) |}
        end
      else st
  | None => st
  end.

(** The click handler of the convert button. *)
Definition handleConvert (currentTime : Z) (random : nat -> number)
    (st : AppState) : AppState :=
  if (length (trim (inputNumbers st)) =? 0)%nat then st
  else
    let updatedRecords :=
      newRecords currentTime random (inputNumbers st) ++ records st in
    {| inputNumbers := [];
       records := updatedRecords;
       localStorage :=
         <[LOCAL_STORAGE_KEY := JSON_stringify updatedRecords]>
           (localStorage st) |}.

End Host.

(** The load pass: the mount effect, run on the initial state. *)
Definition load (JSON_parse : jsstring -> option (list WhatsAppRecord))
    (JSON_stringify : list WhatsAppRecord -> jsstring)
    (currentTime : Z) (ls : gmap jsstring jsstring) : AppState :=
  mountEffect JSON_parse JSON_stringify currentTime (initialState ls).

(** ** The page's events *)

(** What the user can do after the mount: edit the text area
    ([onChange]) or press the convert button ([onClick]). *)
Inductive Event :=
| Change (value : jsstring)
| Convert (currentTime : Z) (random : nat -> number).

Definition step (JSON_stringify : list WhatsAppRecord -> jsstring)
    (st : AppState) (ev : Event) : AppState :=
  match ev with
  | Change value =>
      {| inputNumbers := value;
         records := records st;
         localStorage := localStorage st |}
  | Convert currentTime random =>
      handleConvert JSON_stringify currentTime random st
  end.

(** A session: the mount effect on the initial state, then the events. *)
Definition session (JSON_parse : jsstring -> option (list WhatsAppRecord))
    (JSON_stringify : list WhatsAppRecord -> jsstring)
    (ls : gmap jsstring jsstring) (mountTime : Z) (evs : list Event)
    : AppState :=
  fold_left (step JSON_stringify) evs
    (load JSON_parse JSON_stringify mountTime ls).

(** ** A reference instance of the host's JSON codec

    Enough of [JSON.stringify] and [JSON.parse] to run the operations on
    concrete storage contents: the serializer writes records the way the
    host does, the parser reads any JSON text and keeps the arrays of
    records. *)
Module RefJSON.

Inductive value :=
| Null
| Bool (b : bool)
| Num (q : Q)
| Str (s : jsstring)
| Arr (vs : list value)
| Obj (members : list (jsstring * value)).

(** *** Serializer *)

Definition hex_digit (n : N) : code_unit :=
  if n <? 10 then 48 + n else 87 + n.

Definition hex4 (c : code_unit) : jsstring :=
  [hex_digit (c / 4096 mod 16); hex_digit (c / 256 mod 16);
   hex_digit (c / 16 mod 16); hex_digit (c mod 16)].

Definition unicode_escape (c : code_unit) : jsstring :=
  92 :: 117 :: hex4 c.

Definition is_lead_surrogate (c : code_unit) : bool :=
  (55296 <=? c) && (c <=? 56319).
Definition is_trail_surrogate (c : code_unit) : bool :=
  (56320 <=? c) && (c <=? 57343).

Definition quote_unit (c : code_unit) : jsstring :=
  if c =? 34 then [92; 34]
  else if c =? 92 then [92; 92]
  else if c =? 8 then [92; 98]
  else if c =? 12 then [92; 102]
  else if c =? 10 then [92; 110]
  else if c =? 13 then [92; 114]
  else if c =? 9 then [92; 116]
  else if c <? 32 then unicode_escape c
  else if is_lead_surrogate c || is_trail_surrogate c then unicode_escape c
  else [c].

Fixpoint quote_units (s : jsstring) : jsstring :=
  match s with
  | [] => []
  | c :: s' =>
      match s' with
      | d :: s'' =>
          if is_lead_surrogate c && is_trail_surrogate d
          then c :: d :: quote_units s''
          else quote_unit c ++ quote_units s'
      | [] => quote_unit c
      end
  end.

Definition quote (s : jsstring) : jsstring :=
  34 :: quote_units s ++ [34].

Definition print_N (n : N) : jsstring :=
  js (NilZero.string_of_uint (N.to_uint n)).

(** The digits after the decimal point of [r / d], until the expansion
    ends or [fuel] digits are written. *)
Fixpoint fraction_digits (fuel : nat) (r d : N) : jsstring :=
  match fuel with
  | O => []
  | S fuel' =>
      if r =? 0 then []
      else (48 + (10 * r) / d) :: fraction_digits fuel' ((10 * r) mod d) d
  end.

Definition print_number (q : number) : jsstring :=
  let n := Z.abs_N (Qnum q) in
  let d := Npos (Qden q) in
  let sign := if (Qnum q <? 0)%Z then [45] else [] in
  let frac := fraction_digits 20 (n mod d) d in
  sign ++ print_N (n / d) ++
  match frac with
  | [] => []
  | _ => 46 :: frac
  end.

Definition print_record (r : WhatsAppRecord) : jsstring :=
  js "{" ++ quote (js "id") ++ js ":" ++ print_number (id r)
  ++ js "," ++ quote (js "original") ++ js ":" ++ quote (original r)
  ++ js "," ++ quote (js "link") ++ js ":" ++ quote (link r)
  ++ js "," ++ quote (js "timestamp") ++ js ":" ++ print_number (timestamp r)
  ++ js "}".

Fixpoint join (sep : jsstring) (l : list jsstring) : jsstring :=
  match l with
  | [] => []
  | [x] => x
  | x :: l' => x ++ sep ++ join sep l'
  end.

Definition stringify (rs : list WhatsAppRecord) : jsstring :=
  js "[" ++ join (js ",") (List.map print_record rs) ++ js "]".

(** *** Parser *)

Definition is_json_ws (c : code_unit) : bool :=
  (c =? 32) || (c =? 9) || (c =? 10) || (c =? 13).

Fixpoint skip_ws (s : jsstring) : jsstring :=
  match s with
  | [] => []
  | c :: s' => if is_json_ws c then skip_ws s' else s
  end.

Fixpoint strip_prefix (p s : jsstring) : option jsstring :=
  match p, s with
  | [], _ => Some s
  | a :: p', b :: s' => if a =? b then strip_prefix p' s' else None
  | _ :: _, [] => None
  end.

Fixpoint read_digits (s : jsstring) : list N * jsstring :=
  match s with
  | [] => ([], [])
  | c :: s' =>
      if isDigit c
      then let '(ds, rest) := read_digits s' in ((c - 48) :: ds, rest)
      else ([], s)
  end.

Definition digits_value (ds : list N) : N :=
  fold_left (fun acc d => 10 * acc + d) ds 0.

Definition pow10 (n : N) : positive :=
  match N.pow 10 n with
  | Npos p => p
  | N0 => 1%positive
  end.

Definition parse_number (s : jsstring) : option (number * jsstring) :=
  let '(negative, s1) :=
    match s with
    | c :: r => if c =? 45 then (true, r) else (false, s)
    | [] => (false, s)
    end in
  let '(ip, s2) := read_digits s1 in
  match ip with
  | [] => None
  | d :: ds =>
      if (d =? 0) && (0 <? length ds)%nat then None
      else
        let frac :=
          match s2 with
          | c :: r =>
              if c =? 46
              then match read_digits r with
                   | ([], _) => None
                   | (fd, r') => Some (fd, r')
                   end
              else Some ([], s2)
          | [] => Some ([], s2)
          end in
        match frac with
        | None => None
        | Some (fd, s3) =>
            let expo :=
              match s3 with
              | c :: r =>
                  if (c =? 101) || (c =? 69)
                  then
                    let '(eneg, r1) :=
                      match r with
                      | c' :: r' =>
                          if c' =? 45 then (true, r')
                          else if c' =? 43 then (false, r')
                          else (false, r)
                      | [] => (false, r)
                      end in
                    match read_digits r1 with
                    | ([], _) => None
                    | (ed, r2) => Some (eneg, digits_value ed, r2)
                    end
                  else Some (false, 0, s3)
              | [] => Some (false, 0, s3)
              end in
            match expo with
            | None => None
            | Some (eneg, e, s4) =>
                let mant : Q :=
                  Qmake (Z.of_N (digits_value (ip ++ fd)))
                        (pow10 (N.of_nat (length fd))) in
                let scaled : Q :=
                  if eneg then (mant / inject_Z (Zpos (pow10 e)))%Q
                  else (mant * inject_Z (Zpos (pow10 e)))%Q in
                Some (Qred (if negative then Qopp scaled else scaled), s4)
            end
        end
  end.

Definition hex_value (c : code_unit) : option N :=
  if isDigit c then Some (c - 48)
  else if (97 <=? c) && (c <=? 102) then Some (c - 87)
  else if (65 <=? c) && (c <=? 70) then Some (c - 55)
  else None.

Definition simple_escape (e : code_unit) : option code_unit :=
  if e =? 34 then Some 34
  else if e =? 92 then Some 92
  else if e =? 47 then Some 47
  else if e =? 98 then Some 8
  else if e =? 102 then Some 12
  else if e =? 110 then Some 10
  else if e =? 114 then Some 13
  else if e =? 116 then Some 9
  else None.

(** The rest of a string literal, after its opening quote. *)
Fixpoint parse_string_body (s : jsstring) : option (jsstring * jsstring) :=
  match s with
  | [] => None
  | c :: rest =>
      if c =? 34 then Some ([], rest)
      else if c =? 92 then
        match rest with
        | [] => None
        | e :: rest1 =>
            if e =? 117 then
              match rest1 with
              | h1 :: h2 :: h3 :: h4 :: rest2 =>
                  match hex_value h1, hex_value h2, hex_value h3, hex_value h4 with
                  | Some a, Some b, Some c', Some d =>
                      match parse_string_body rest2 with
                      | Some (body, r) =>
                          Some ((4096 * a + 256 * b + 16 * c' + d) :: body, r)
                      | None => None
                      end
                  | _, _, _, _ => None
                  end
              | _ => None
              end
            else
              match simple_escape e with
              | Some u =>
                  match parse_string_body rest1 with
                  | Some (body, r) => Some (u :: body, r)
                  | None => None
                  end
              | None => None
              end
        end
      else if c <? 32 then None
      else
        match parse_string_body rest with
        | Some (body, r) => Some (c :: body, r)
        | None => None
        end
  end.

(** The elements of an array after the first one is due: [v, v, ... ]]. *)
Fixpoint parse_elements (pv : jsstring -> option (value * jsstring))
    (fuel : nat) (s : jsstring) : option (list value * jsstring) :=
  match fuel with
  | O => None
  | S fuel' =>
      match pv s with
      | None => None
      | Some (v, rest) =>
          match skip_ws rest with
          | c :: rest' =>
              if c =? 44 then
                match parse_elements pv fuel' rest' with
                | Some (vs, r) => Some (v :: vs, r)
                | None => None
                end
              else if c =? 93 then Some ([v], rest')
              else None
          | [] => None
          end
      end
  end.

(** The members of an object after the first one is due. *)
Fixpoint parse_members (pv : jsstring -> option (value * jsstring))
    (fuel : nat) (s : jsstring)
    : option (list (jsstring * value) * jsstring) :=
  match fuel with
  | O => None
  | S fuel' =>
      match skip_ws s with
      | q :: s1 =>
          if q =? 34 then
            match parse_string_body s1 with
            | None => None
            | Some (k, s2) =>
                match skip_ws s2 with
                | colon :: s3 =>
                    if colon =? 58 then
                      match pv s3 with
                      | None => None
                      | Some (v, rest) =>
                          match skip_ws rest with
                          | c :: rest' =>
                              if c =? 44 then
                                match parse_members pv fuel' rest' with
                                | Some (ms, r) => Some ((k, v) :: ms, r)
                                | None => None
                                end
                              else if c =? 125 then Some ([(k, v)], rest')
                              else None
                          | [] => None
                          end
                      end
                    else None
                | [] => None
                end
            end
          else None
      | [] => None
      end
  end.

Fixpoint parse_value (fuel : nat) (s : jsstring)
    : option (value * jsstring) :=
  match fuel with
  | O => None
  | S fuel' =>
      match skip_ws s with
      | [] => None
      | c :: rest =>
          if c =? 110 then
            option_map (fun r => (Null, r)) (strip_prefix (js "ull") rest)
          else if c =? 116 then
            option_map (fun r => (Bool true, r)) (strip_prefix (js "rue") rest)
          else if c =? 102 then
            option_map (fun r => (Bool false, r)) (strip_prefix (js "alse") rest)
          else if c =? 34 then
            option_map (fun '(str, r) => (Str str, r)) (parse_string_body rest)
          else if c =? 91 then
            match skip_ws rest with
            | d :: rest' =>
                if d =? 93 then Some (Arr [], rest')
                else option_map (fun '(vs, r) => (Arr vs, r))
                       (parse_elements (parse_value fuel') (length rest) rest)
            | [] => None
            end
          else if c =? 123 then
            match skip_ws rest with
            | d :: rest' =>
                if d =? 125 then Some (Obj [], rest')
                else option_map (fun '(ms, r) => (Obj ms, r))
                       (parse_members (parse_value fuel') (length rest) rest)
            | [] => None
            end
          else
            option_map (fun '(q, r) => (Num q, r)) (parse_number (c :: rest))
      end
  end.

Definition parse_text (s : jsstring) : option value :=
  match parse_value (S (length s)) s with
  | Some (v, rest) =>
      match skip_ws rest with
      | [] => Some v
      | _ :: _ => None
      end
  | None => None
  end.

(** *** Reading a parsed value at the type [WhatsAppRecord[]] *)

(** Property lookup; of two members with one name the later one wins. *)
Fixpoint get (k : jsstring) (members : list (jsstring * value))
    : option value :=
  match members with
  | [] => None
  | (k', v) :: members' =>
      match get k members' with
      | Some v' => Some v'
      | None => if decide (k = k') then Some v else None
      end
  end.

Definition as_record (v : value) : option WhatsAppRecord :=
  match v with
  | Obj members =>
      match get (js "id") members, get (js "original") members,
            get (js "link") members, get (js "timestamp") members with
      | Some (Num i), Some (Str o), Some (Str l), Some (Num t) =>
          Some {| id := i; original := o; link := l; timestamp := t |}
      | _, _, _, _ => None
      end
  | _ => None
  end.

Fixpoint as_records (vs : list value) : option (list WhatsAppRecord) :=
  match vs with
  | [] => Some []
  | v :: vs' =>
      match as_record v, as_records vs' with
      | Some r, Some rs => Some (r :: rs)
      | _, _ => None
      end
  end.

Definition parse (s : jsstring) : option (list WhatsAppRecord) :=
  match parse_text s with
  | Some (Arr vs) => as_records vs
  | _ => None
  end.

End RefJSON.

(** ** Notions of the specification *)

(** A blank line or input: nothing but white space. *)
Definition blank (s : jsstring) : bool := forallb isWhiteSpace s.

(** The non-blank lines of an input, as it is split at the newlines. *)
Definition nonblank_lines (input : jsstring) : list jsstring :=
  List.filter (fun l => negb (blank l)) (split newline input).

(** Sanitizing as the comment in the source words it: digits are kept,
    and a plus sign only where it leads the line. *)
Definition sanitize_leading_plus (line : jsstring) : jsstring :=
  match line with
  | [] => []
  | c :: rest =>
      if c =? plus_sign then plus_sign :: List.filter isDigit rest
      else List.filter isDigit line
  end.

(** A record is expired at [currentTime] when its age has reached the
    time to live: [now - timestamp >= 86400000]. *)
Definition expired (currentTime : Z) (r : WhatsAppRecord) : bool :=
  Qle_bool (inject_Z 86400000) (inject_Z currentTime - timestamp r).

(** The text whose lines are [lines]: the lines with a newline between
    each two of them. *)
Fixpoint join_lines (lines : list jsstring) : jsstring :=
  match lines with
  | [] => []
  | l :: rest =>
      match rest with
      | [] => l
      | _ :: _ => l ++ newline :: join_lines rest
      end
  end.

(** A line holds no newline. *)
Definition newline_free (l : jsstring) : bool :=
  forallb (fun c => negb (c =? newline)) l.



(** ** Sample data *)

(** JSON text written with an apostrophe for each double quote. *)
Definition json_text (s : string) : jsstring :=
  List.map (fun c => if c =? 39 then 34 else c) (js s).

Definition sample_now : Z := 1700000000000.

(** One record past the time to live, one well within it. *)
Definition sample_stored : jsstring :=
  json_text "[{'id':1699910000000.5,'original':'0811','link':'https://wa.me/0811','timestamp':1699910000000},{'id':1699999999000.25,'original':'0812','link':'https://wa.me/0812','timestamp':1699999999000}]".

Definition sample_old : WhatsAppRecord :=
  {| id := 3399820000001 # 2; original := js "0811";
     link := js "https://wa.me/0811"; timestamp := inject_Z 1699910000000 |}.

Definition sample_recent : WhatsAppRecord :=
  {| id := 6799999996001 # 4; original := js "0812";
     link := js "https://wa.me/0812"; timestamp := inject_Z 1699999999000 |}.

Definition sample_input : jsstring :=
  js "+1 (415) 555-2671" ++ [newline; newline] ++ js "  6281234567890  ".

Definition sample_state : AppState :=
  {| inputNumbers := sample_input;
     records := [sample_recent];
     localStorage :=
       {[ LOCAL_STORAGE_KEY := RefJSON.stringify [sample_recent] ]} |}.

(** [Math.random()] returning one half at every call. *)
Definition constant_random : nat -> number := fun _ => 1 # 2.

(** A session: load the sample storage, type two lines, convert, type
    blanks, convert again. *)
Definition sample_events : list Event :=
  [Change sample_input; Convert (sample_now + 5) constant_random;
   Change (js "   "); Convert (sample_now + 9) constant_random].

(** ** The results view *)

(** One [<tr>] of the results table: its React key, the text of the
    first cell, the [href] and the text of the anchor, and the argument
    the Copy button passes to [handleCopy]. *)
Record Row := mkRow {
  key : number;
  original_cell : jsstring;
  href : jsstring;
  link_text : jsstring;
  copy_argument : jsstring
}.

(** What the page shows under "Generated Links": the table, or the
    paragraph that says no link was generated yet. *)
Inductive Results :=
| NoLinksYet
| Table (rows : list Row).

(** The callback of [records.map] in the table body. *)
Definition render_row (record : WhatsAppRecord) : Row :=
  {| key := id record;
     original_cell := original record;
     href := link record;
     link_text := link record;
     copy_argument := link record |}.

(** [records.length > 0 ? <table> : <p>]. *)
Definition render_results (records : list WhatsAppRecord) : Results :=
  if (0 <? length records)%nat then Table (List.map render_row records)
  else NoLinksYet.

(** ** Notions used for the further properties *)

(** A record as the page builds them: the original is a non-empty
    trimmed line and the link is derived from it. *)
Definition well_formed (r : WhatsAppRecord) : Prop :=
  original r <> []
  /\ trim (original r) = original r
  /\ link r = make_link (sanitize (original r)).

(** No record stands before a younger one. *)
Definition newest_first (rs : list WhatsAppRecord) : Prop :=
  StronglySorted (fun a b => (timestamp b <= timestamp a)%Q) rs.

(** The code units a sanitized number is made of. *)
Definition digit_or_plus (c : code_unit) : bool :=
  isDigit c || (c =? plus_sign).

(** * Properties *)

Arguments js : simpl never.

(** ** Trimming and splitting *)

Lemma trimStart_nil_iff (s : jsstring) :
  trimStart s = [] <-> blank s = true.
Proof.
  unfold blank. induction s as [|c s IH]; simpl; [tauto|].
  destruct (isWhiteSpace c); simpl; [exact IH|].
  split; discriminate.
Qed.

Lemma trimStart_head (s : jsstring) (c : code_unit) (t : jsstring) :
  trimStart s = c :: t -> isWhiteSpace c = false.
Proof.
  induction s as [|d s IH]; simpl; [discriminate|].
  destruct (isWhiteSpace d) eqn:Hd; [exact IH|].
  intros [= <- _]. exact Hd.
Qed.

Lemma blank_rev (s : jsstring) : blank (rev s) = blank s.
Proof.
  unfold blank. induction s as [|c s IH]; simpl; [reflexivity|].
  rewrite forallb_app, IH. simpl. rewrite andb_true_r. apply andb_comm.
Qed.

Lemma trimStart_blank_suffix (s : jsstring) :
  blank (trimStart s) = blank s.
Proof.
  unfold blank. induction s as [|c s IH]; simpl; [reflexivity|].
  destruct (isWhiteSpace c) eqn:Hc; simpl; [exact IH|].
  rewrite Hc. reflexivity.
Qed.

(** [trim] leaves nothing exactly of the strings that are all white space. *)
Lemma trim_nil_iff (s : jsstring) : trim s = [] <-> blank s = true.
Proof.
  unfold trim, trimEnd. split.
  - intros H. apply (f_equal (@rev _)) in H. rewrite rev_involutive in H.
    simpl in H. apply trimStart_nil_iff in H.
    rewrite blank_rev, trimStart_blank_suffix in H. exact H.
  - intros H. apply trimStart_nil_iff in H. rewrite H. reflexivity.
Qed.

Lemma trim_length_pos (s : jsstring) :
  (0 <? length (trim s))%nat = negb (blank s).
Proof.
  destruct (blank s) eqn:Hb.
  - apply trim_nil_iff in Hb. rewrite Hb. reflexivity.
  - destruct (trim s) eqn:Ht; [|reflexivity].
    apply trim_nil_iff in Ht. congruence.
Qed.

Lemma trim_length_zero (s : jsstring) :
  (length (trim s) =? 0)%nat = blank s.
Proof.
  destruct (blank s) eqn:Hb.
  - apply trim_nil_iff in Hb. rewrite Hb. reflexivity.
  - destruct (trim s) eqn:Ht; [|reflexivity].
    apply trim_nil_iff in Ht. congruence.
Qed.

Lemma split_not_nil (sep : code_unit) (s : jsstring) : split sep s <> [].
Proof.
  destruct s as [|c s]; simpl; [discriminate|].
  destruct (c =? sep); [discriminate|].
  destruct (split sep s); discriminate.
Qed.

(** A property of code units that the separator has holds of the whole
    string exactly when it holds of every piece. *)
Lemma split_forallb (P : code_unit -> bool) (sep : code_unit) (s : jsstring) :
  P sep = true ->
  forallb P s = forallb (forallb P) (split sep s).
Proof.
  intros Hsep. induction s as [|c s IH]; simpl; [reflexivity|].
  destruct (N.eqb_spec c sep) as [->|Hne].
  - simpl. rewrite Hsep, IH. reflexivity.
  - pose proof (split_not_nil sep s) as Hnn.
    destruct (split sep s) as [|l ls]; [congruence|].
    simpl in *. rewrite IH. apply andb_assoc.
Qed.

Lemma split_app_separator (sep : code_unit) (a b : jsstring) :
  split sep (a ++ sep :: b) = split sep a ++ split sep b.
Proof.
  induction a as [|c a IH]; simpl.
  - rewrite N.eqb_refl. reflexivity.
  - destruct (c =? sep); [rewrite IH; reflexivity|].
    rewrite IH. pose proof (split_not_nil sep a) as Hnn.
    destruct (split sep a); [congruence|reflexivity].
Qed.

Lemma split_newline_free (l : jsstring) :
  newline_free l = true -> split newline l = [l].
Proof.
  unfold newline_free. induction l as [|c l IH]; simpl; [reflexivity|].
  intros [Hc Hl]%andb_true_iff. apply negb_true_iff in Hc.
  rewrite Hc, (IH Hl). reflexivity.
Qed.

(** Splitting a text at the newlines gives back the lines it was joined
    from. *)
Lemma split_join_lines (lines : list jsstring) :
  lines <> [] ->
  forallb newline_free lines = true ->
  split newline (join_lines lines) = lines.
Proof.
  induction lines as [|l rest IH]; [congruence|]. intros _.
  cbn [forallb]. intros [Hl Hrest]%andb_true_iff.
  destruct rest as [|l' rest'].
  - apply split_newline_free, Hl.
  - change (join_lines (l :: l' :: rest'))
      with (l ++ newline :: join_lines (l' :: rest')).
    rewrite split_app_separator, (split_newline_free _ Hl).
    rewrite (IH ltac:(discriminate) Hrest). reflexivity.
Qed.

(** The input is blank exactly when each of its lines is. *)
Lemma blank_lines (input : jsstring) :
  blank input = forallb blank (split newline input).
Proof. unfold blank. apply split_forallb. reflexivity. Qed.

Lemma nonblank_line_input (input : jsstring) :
  Exists (fun l => blank l = false) (split newline input) ->
  blank input = false.
Proof.
  intros H. rewrite blank_lines. apply not_true_is_false. intros Hall.
  rewrite forallb_forall in Hall. apply Exists_exists in H.
  destruct H as (l & Hin & Hl). apply list_elem_of_In in Hin.
  rewrite (Hall l Hin) in Hl. discriminate.
Qed.

(** The lines that [handleConvert] turns into records are the non-blank
    lines of the input, trimmed, in their order. *)
Lemma input_lines_nonblank (input : jsstring) :
  input_lines input = List.map trim (nonblank_lines input).
Proof.
  unfold input_lines, nonblank_lines. rewrite filter_map_swap.
  f_equal. apply filter_ext. intros l. apply trim_length_pos.
Qed.

(** ** Sanitizing *)

Lemma sanitize_filter (s : jsstring) :
  sanitize s = List.filter (fun c => isDigit c || (c =? plus_sign)) s.
Proof.
  unfold sanitize. induction s as [|c s IH]; simpl; [reflexivity|].
  unfold class_not_digit_plus at 1.
  destruct (isDigit c || (c =? plus_sign)); simpl; rewrite IH; reflexivity.
Qed.

Lemma sanitize_cons (c : code_unit) (s : jsstring) :
  sanitize (c :: s) =
  if isDigit c || (c =? plus_sign) then c :: sanitize s else sanitize s.
Proof.
  unfold sanitize. simpl. unfold class_not_digit_plus at 1.
  destruct (isDigit c || (c =? plus_sign)); reflexivity.
Qed.

(** What is left holds digits and plus signs only. *)
Lemma sanitize_alphabet (s : jsstring) :
  forallb (fun c => isDigit c || (c =? plus_sign)) (sanitize s) = true.
Proof.
  induction s as [|c s IH]; [reflexivity|]. rewrite sanitize_cons.
  destruct (isDigit c || (c =? plus_sign)) eqn:Hc; simpl; [|exact IH].
  rewrite Hc, IH. reflexivity.
Qed.

(** Where no plus sign follows the first character, the code does what
    its comment says. *)
Lemma sanitize_leading_plus_agree (line : jsstring) :
  forallb (fun c => negb (c =? plus_sign)) (tl line) = true ->
  sanitize line = sanitize_leading_plus line.
Proof.
  assert (Hrest : forall s, forallb (fun c => negb (c =? plus_sign)) s = true ->
                            sanitize s = List.filter isDigit s).
  { induction s as [|c s IH]; [reflexivity|]. simpl.
    intros [Hc Hs]%andb_true_iff. rewrite sanitize_cons, (IH Hs).
    apply negb_true_iff in Hc. rewrite Hc, orb_false_r. reflexivity. }
  destruct line as [|c rest]; [reflexivity|]. simpl. intros H.
  rewrite sanitize_cons, (Hrest rest H).
  destruct (N.eqb_spec c plus_sign) as [->|Hne]; [reflexivity|].
  rewrite orb_false_r. reflexivity.
Qed.

(** C9: sanitizing is idempotent: on every string, sanitizing the
    sanitized string gives the sanitized string again. *)
Theorem C9_sanitize_idempotent (s : jsstring) :
  sanitize (sanitize s) = sanitize s.
Proof.
  induction s as [|c s IH]; [reflexivity|]. rewrite sanitize_cons.
  destruct (isDigit c || (c =? plus_sign)) eqn:Hc; [|exact IH].
  rewrite sanitize_cons, Hc, IH. reflexivity.
Qed.

(** C3, evaluated on the code: on the trimmed line [+62 812+3456] the
    sanitized number keeps the inner plus sign, so it is not what is left
    when only digits and a leading plus sign are kept; the link of the
    record is the prefix followed by that sanitized number. *)
Theorem C3_inner_plus_is_kept :
  let line := js "+62 812+3456" in
  trim line = line
  /\ sanitize line = js "+62812+3456"
  /\ sanitize_leading_plus line = js "+628123456"
  /\ sanitize line <> sanitize_leading_plus line
  /\ link (make_record sample_now (constant_random 0) line)
     = js "https://wa.me/+62812+3456".
Proof. vm_compute. repeat split; try reflexivity. discriminate. Qed.

(** ** The records of one submission *)

Lemma imap_make_record_original (currentTime : Z) (l : list jsstring) :
  forall random : nat -> number,
    List.map original
      (imap (fun i o => make_record currentTime (random i) o) l) = l.
Proof.
  induction l as [|o l IH]; intros random; [reflexivity|].
  simpl. f_equal. apply (IH (fun i => random (S i))).
Qed.

Lemma imap_make_record_Forall (P : WhatsAppRecord -> Prop) (currentTime : Z)
    (l : list jsstring) :
  (forall r o, P (make_record currentTime r o)) ->
  forall random : nat -> number,
    Forall P (imap (fun i o => make_record currentTime (random i) o) l).
Proof.
  intros HP. induction l as [|o l IH]; intros random; simpl.
  - constructor.
  - constructor; [apply HP|]. apply (IH (fun i => random (S i))).
Qed.

Lemma newRecords_original (currentTime : Z) (random : nat -> number)
    (input : jsstring) :
  List.map original (newRecords currentTime random input)
  = List.map trim (nonblank_lines input).
Proof.
  unfold newRecords. rewrite imap_make_record_original.
  apply input_lines_nonblank.
Qed.

Lemma newRecords_length (currentTime : Z) (random : nat -> number)
    (input : jsstring) :
  length (newRecords currentTime random input)
  = length (nonblank_lines input).
Proof.
  rewrite <- (length_map original), newRecords_original.
  apply length_map.
Qed.

(** Every new record carries the time of the submission, and its link is
    the prefix followed by its sanitized original. *)
Lemma newRecords_fields (currentTime : Z) (random : nat -> number)
    (input : jsstring) :
  Forall (fun r => link r = link_prefix ++ sanitize (original r)
                   /\ timestamp r = inject_Z currentTime)
    (newRecords currentTime random input).
Proof.
  unfold newRecords. apply imap_make_record_Forall.
  intros r o. split; reflexivity.
Qed.

(** The [i]-th new record has the id [currentTime + random i]. *)
Lemma newRecords_id (currentTime : Z) (input : jsstring) :
  forall (random : nat -> number) (i : nat) (r : WhatsAppRecord),
    newRecords currentTime random input !! i = Some r ->
    id r = (inject_Z currentTime + random i)%Q.
Proof.
  unfold newRecords. induction (input_lines input) as [|o l IH];
    intros random i r; [discriminate|].
  destruct i as [|i]; simpl.
  - intros [= <-]. reflexivity.
  - intros H. apply (IH (fun j => random (S j)) i r H).
Qed.

(** The two-line scenario of the specification. *)
Example newRecords_scenario :
  List.map (fun r => (original r, link r))
    (newRecords sample_now constant_random sample_input)
  = [(js "+1 (415) 555-2671", js "https://wa.me/+14155552671");
     (js "6281234567890", js "https://wa.me/6281234567890")].
Proof. vm_compute. reflexivity. Qed.

(** A line without digits or plus signs still gives a record; its link
    is the bare prefix. *)
Example newRecords_no_digits :
  List.map (fun r => (original r, link r))
    (newRecords sample_now constant_random (js " n/a "))
  = [(js "n/a", link_prefix)].
Proof. vm_compute. reflexivity. Qed.

(** ** Submitting *)

Section Submit.

Variable JSON_stringify : list WhatsAppRecord -> jsstring.

Lemma handleConvert_blank (currentTime : Z) (random : nat -> number)
    (st : AppState) :
  blank (inputNumbers st) = true ->
  handleConvert JSON_stringify currentTime random st = st.
Proof.
  intros Hb. unfold handleConvert. rewrite trim_length_zero, Hb. reflexivity.
Qed.

Lemma handleConvert_nonblank (currentTime : Z) (random : nat -> number)
    (st : AppState) :
  blank (inputNumbers st) = false ->
  handleConvert JSON_stringify currentTime random st
  = {| inputNumbers := [];
       records := newRecords currentTime random (inputNumbers st) ++ records st;
       localStorage :=
         <[LOCAL_STORAGE_KEY :=
             JSON_stringify
               (newRecords currentTime random (inputNumbers st) ++ records st)]>
           (localStorage st) |}.
Proof.
  intros Hb. unfold handleConvert. rewrite trim_length_zero, Hb. reflexivity.
Qed.

(** C4: when the submitted text has at least one non-blank line, the
    submission adds one record per non-blank line and no other. The text
    is given by its lines, joined by newlines: the new records are as
    many as the non-blank ones among them, their originals are those
    lines trimmed, in order, and each link is the prefix followed by the
    sanitized line -- the bare prefix where the line sanitizes to the
    empty string. No non-blank line is rejected. *)
Theorem C4_one_record_per_nonblank_line (currentTime : Z)
    (random : nat -> number) (st : AppState) (lines : list jsstring) :
  inputNumbers st = join_lines lines ->
  forallb newline_free lines = true ->
  Exists (fun l => blank l = false) lines ->
  exists new : list WhatsAppRecord,
    records (handleConvert JSON_stringify currentTime random st)
    = new ++ records st
    /\ length new = length (List.filter (fun l => negb (blank l)) lines)
    /\ List.map original new
       = List.map trim (List.filter (fun l => negb (blank l)) lines)
    /\ Forall (fun r => link r = link_prefix ++ sanitize (original r)) new
    /\ Forall (fun r => sanitize (original r) = [] -> link r = link_prefix) new.
Proof.
  intros Hin Hfree Hline.
  assert (Hsplit : split newline (inputNumbers st) = lines).
  { rewrite Hin. apply split_join_lines; [|exact Hfree].
    intros ->. inversion Hline. }
  assert (Hnb : nonblank_lines (inputNumbers st)
                = List.filter (fun l => negb (blank l)) lines)
    by (unfold nonblank_lines; rewrite Hsplit; reflexivity).
  rewrite <- Hsplit in Hline. apply nonblank_line_input in Hline.
  exists (newRecords currentTime random (inputNumbers st)).
  rewrite (handleConvert_nonblank _ _ _ Hline). cbn [records].
  split; [reflexivity|].
  split; [rewrite <- Hnb; apply newRecords_length|].
  split; [rewrite <- Hnb; apply newRecords_original|].
  pose proof (newRecords_fields currentTime random (inputNumbers st)) as HF.
  split; (eapply Forall_impl; [exact HF|]); cbv beta.
  - intros r [Hl _]. exact Hl.
  - intros r [Hl _] Hs. rewrite Hl, Hs. apply app_nil_r.
Qed.

(** C5: a submission whose text is not blank puts the new records in
    front of the existing ones, which follow in their prior order; the
    combined collection is the new in-memory collection and, serialized,
    the new stored value; the input field is emptied; the other keys of
    storage are untouched. *)
Theorem C5_submit_prepends_and_persists (currentTime : Z)
    (random : nat -> number) (st : AppState) :
  blank (inputNumbers st) = false ->
  let st' := handleConvert JSON_stringify currentTime random st in
  records st' = newRecords currentTime random (inputNumbers st) ++ records st
  /\ localStorage st' !! LOCAL_STORAGE_KEY = Some (JSON_stringify (records st'))
  /\ (forall k, k <> LOCAL_STORAGE_KEY ->
                localStorage st' !! k = localStorage st !! k)
  /\ inputNumbers st' = [].
Proof.
  intros Hb. simpl. rewrite (handleConvert_nonblank _ _ _ Hb). simpl.
  split; [reflexivity|]. split; [apply lookup_insert_eq|].
  split; [|reflexivity].
  intros k Hk. apply lookup_insert_ne. congruence.
Qed.

(** C7: submitting a blank input -- empty or white space only -- changes
    nothing: the handler returns the state it was given, with the same
    records, the same storage and the same input field. *)
Theorem C7_blank_submit_is_noop (currentTime : Z) (random : nat -> number)
    (st : AppState) :
  blank (inputNumbers st) = true ->
  let st' := handleConvert JSON_stringify currentTime random st in
  st' = st
  /\ records st' = records st
  /\ localStorage st' = localStorage st
  /\ inputNumbers st' = inputNumbers st.
Proof.
  intros Hb. simpl. rewrite (handleConvert_blank _ _ _ Hb). tauto.
Qed.

End Submit.

(** Two draws of [Math.random()] that agree give two records one id. *)
Lemma newRecords_id_collision (currentTime : Z) (random : nat -> number)
    (input : jsstring) (i j : nat) (ri rj : WhatsAppRecord) :
  newRecords currentTime random input !! i = Some ri ->
  newRecords currentTime random input !! j = Some rj ->
  (random i == random j)%Q ->
  (id ri == id rj)%Q.
Proof.
  intros Hi Hj Heq.
  rewrite (newRecords_id _ _ _ _ _ Hi), (newRecords_id _ _ _ _ _ Hj), Heq.
  reflexivity.
Qed.

(** Rounding only adds collisions: at a clock value of today the binary64
    sum cannot tell apart two draws that differ by a hundred-thousandth. *)
Lemma binary64_id_collision :
  (0x1.999999999999ap-4 =? 0x1.99a415f45e0b5p-4)%float = false
  /\ (binary64_id 1700000000000 0x1.999999999999ap-4
      =? binary64_id 1700000000000 0x1.99a415f45e0b5p-4)%float = true.
Proof. split; vm_compute; reflexivity. Qed.

(** C8, evaluated on the code: submitting the two lines [0811] and [0812]
    while [Math.random()] returns one half twice stores two distinct
    records with one and the same id. *)
Theorem C8_two_records_one_id :
  let st := {| inputNumbers := js "0811" ++ [newline] ++ js "0812";
               records := [];
               localStorage := ∅ |} in
  let st' := handleConvert RefJSON.stringify sample_now constant_random st in
  exists r1 r2 : WhatsAppRecord,
    records st' = [r1; r2]
    /\ original r1 = js "0811" /\ original r2 = js "0812"
    /\ r1 <> r2
    /\ id r1 = id r2.
Proof.
  eexists _, _. split; [vm_compute; reflexivity|].
  split; [reflexivity|]. split; [reflexivity|].
  split; [|reflexivity]. intros H. apply (f_equal original) in H.
  vm_compute in H. discriminate.
Qed.

(** ** Expiry *)

Lemma number_ltb_lt (x y : number) : number_ltb x y = true <-> (x < y)%Q.
Proof.
  unfold number_ltb. rewrite Qlt_alt.
  destruct (x ?= y)%Q; split; congruence.
Qed.

Lemma number_ltb_not_le (x y : number) :
  number_ltb x y = negb (Qle_bool y x).
Proof.
  destruct (Qle_bool y x) eqn:Hle; simpl.
  - apply Qle_bool_iff in Hle. apply not_true_is_false. intros Hlt.
    apply number_ltb_lt in Hlt. exact (Qlt_not_le _ _ Hlt Hle).
  - apply number_ltb_lt. apply Qnot_le_lt. intros Hle'.
    apply Qle_bool_iff in Hle'. congruence.
Qed.

(** The test of the filter callback is the negation of being expired. *)
Lemma still_valid_not_expired (currentTime : Z) (r : WhatsAppRecord) :
  still_valid currentTime r = negb (expired currentTime r).
Proof. unfold still_valid, expired. apply number_ltb_not_le. Qed.

Lemma still_valid_age (currentTime : Z) (r : WhatsAppRecord) :
  still_valid currentTime r = true
  <-> (inject_Z currentTime - timestamp r < inject_Z 86400000)%Q.
Proof. unfold still_valid. apply number_ltb_lt. Qed.

Lemma expired_age (currentTime : Z) (r : WhatsAppRecord) :
  expired currentTime r = true
  <-> (inject_Z 86400000 <= inject_Z currentTime - timestamp r)%Q.
Proof. unfold expired. apply Qle_bool_iff. Qed.

Lemma filter_sublist {A : Type} (f : A -> bool) (l : list A) :
  sublist (List.filter f l) l.
Proof.
  induction l as [|x l IH]; simpl; [constructor|].
  destruct (f x); [apply sublist_skip | apply sublist_cons]; exact IH.
Qed.

(** ** Loading *)

Section Load.

Variable JSON_parse : jsstring -> option (list WhatsAppRecord).
Variable JSON_stringify : list WhatsAppRecord -> jsstring.

(** [JSON.parse('')] throws. *)
Hypothesis JSON_parse_empty : JSON_parse [] = None.

Lemma parseable_not_empty (s : jsstring) (rs : list WhatsAppRecord) :
  JSON_parse s = Some rs -> (0 <? length s)%nat = true.
Proof.
  destruct s; [|reflexivity]. rewrite JSON_parse_empty. discriminate.
Qed.

Lemma load_parseable (currentTime : Z) (ls : gmap jsstring jsstring)
    (s : jsstring) (rs : list WhatsAppRecord) :
  ls !! LOCAL_STORAGE_KEY = Some s ->
  JSON_parse s = Some rs ->
  load JSON_parse JSON_stringify currentTime ls
  = {| inputNumbers := [];
       records := List.filter (still_valid currentTime) rs;
       localStorage :=
         <[LOCAL_STORAGE_KEY :=
             JSON_stringify (List.filter (still_valid currentTime) rs)]> ls |}.
Proof.
  intros Hs Hp. unfold load, mountEffect, initialState. cbn [localStorage inputNumbers records]. rewrite Hs.
  rewrite (parseable_not_empty _ _ Hp), Hp. reflexivity.
Qed.

Lemma load_unparseable (currentTime : Z) (ls : gmap jsstring jsstring)
    (s : jsstring) :
  ls !! LOCAL_STORAGE_KEY = Some s ->
  s <> [] ->
  JSON_parse s = None ->
  load JSON_parse JSON_stringify currentTime ls
  = {| inputNumbers := []; records := [];
       localStorage := delete LOCAL_STORAGE_KEY ls |}.
Proof.
  intros Hs Hne Hp. unfold load, mountEffect, initialState. cbn [localStorage inputNumbers records]. rewrite Hs.
  destruct s; [congruence|]. simpl. rewrite Hp. reflexivity.
Qed.

Lemma load_empty_string (currentTime : Z) (ls : gmap jsstring jsstring) :
  ls !! LOCAL_STORAGE_KEY = Some [] ->
  load JSON_parse JSON_stringify currentTime ls = initialState ls.
Proof. intros Hs. unfold load, mountEffect, initialState. cbn [localStorage inputNumbers records]. rewrite Hs. reflexivity. Qed.

Lemma load_absent (currentTime : Z) (ls : gmap jsstring jsstring) :
  ls !! LOCAL_STORAGE_KEY = None ->
  load JSON_parse JSON_stringify currentTime ls = initialState ls.
Proof. intros Hs. unfold load, mountEffect, initialState. cbn [localStorage inputNumbers records]. rewrite Hs. reflexivity. Qed.

(** C1: when storage holds a parseable collection, loading keeps exactly
    the records whose age [now - timestamp] is below 86400000 and drops
    exactly those whose age is 86400000 or more; the kept records stand in
    the order they were stored in; every record in memory afterwards is
    younger than the time to live; the kept records are written back. *)
Theorem C1_load_drops_expired (currentTime : Z)
    (ls : gmap jsstring jsstring) (s : jsstring) (rs : list WhatsAppRecord) :
  ls !! LOCAL_STORAGE_KEY = Some s ->
  JSON_parse s = Some rs ->
  let st' := load JSON_parse JSON_stringify currentTime ls in
  records st' = List.filter (fun r => negb (expired currentTime r)) rs
  /\ (forall r, In r (records st') <->
        In r rs /\
        ~ (inject_Z 86400000 <= inject_Z currentTime - timestamp r)%Q)
  /\ sublist (records st') rs
  /\ Forall (fun r =>
        (inject_Z currentTime - timestamp r < inject_Z 86400000)%Q)
       (records st')
  /\ localStorage st' = <[LOCAL_STORAGE_KEY := JSON_stringify (records st')]> ls.
Proof.
  intros Hs Hp. cbv zeta. rewrite (load_parseable _ _ _ _ Hs Hp).
  cbn [records localStorage].
  split; [apply filter_ext; intros r; apply still_valid_not_expired|].
  split.
  { intros r. rewrite filter_In, still_valid_not_expired, negb_true_iff.
    rewrite <- expired_age. destruct (expired currentTime r); intuition congruence. }
  split; [apply filter_sublist|].
  split; [|reflexivity].
  apply List.Forall_forall. intros r [_ Hr]%filter_In.
  apply still_valid_age. exact Hr.
Qed.

(** C2, amended: when storage holds malformed text -- text that is
    handed to [JSON.parse] and does not parse -- the in-memory collection
    is empty after loading and the key is removed from storage: storage
    then holds nothing under the key, not an empty collection; the other
    keys stay as they are. *)
Theorem C2_malformed_is_removed (currentTime : Z)
    (ls : gmap jsstring jsstring) (s : jsstring) :
  ls !! LOCAL_STORAGE_KEY = Some s ->
  s <> [] ->
  JSON_parse s = None ->
  let st' := load JSON_parse JSON_stringify currentTime ls in
  records st' = []
  /\ localStorage st' = delete LOCAL_STORAGE_KEY ls
  /\ localStorage st' !! LOCAL_STORAGE_KEY = None
  /\ (forall k, k <> LOCAL_STORAGE_KEY -> localStorage st' !! k = ls !! k).
Proof.
  intros Hs Hne Hp. cbv zeta. rewrite (load_unparseable _ _ _ Hs Hne Hp).
  cbn [records localStorage].
  split; [reflexivity|]. split; [reflexivity|].
  split; [apply lookup_delete_eq|].
  intros k Hk. apply lookup_delete_ne. congruence.
Qed.

(** C10: when the key is absent at load time, loading writes nothing:
    storage is what it was, the key is still absent, and the in-memory
    collection is empty. *)
Theorem C10_absent_key_untouched (currentTime : Z)
    (ls : gmap jsstring jsstring) :
  ls !! LOCAL_STORAGE_KEY = None ->
  let st' := load JSON_parse JSON_stringify currentTime ls in
  localStorage st' = ls
  /\ localStorage st' !! LOCAL_STORAGE_KEY = None
  /\ records st' = [].
Proof.
  intros Hs. cbv zeta. rewrite (load_absent _ _ Hs). simpl. tauto.
Qed.

(** *** What storage holds throughout a session *)









End Load.

(** ** The operations on the sample data *)

Lemma RefJSON_parse_empty : RefJSON.parse [] = None.
Proof. reflexivity. Qed.

(** The stored record of 25 hours ago goes, the one of a second ago stays. *)
Lemma C1_load_drops_expired_witness :
  let ls : gmap jsstring jsstring := {[ LOCAL_STORAGE_KEY := sample_stored ]} in
  RefJSON.parse sample_stored = Some [sample_old; sample_recent]
  /\ records (load RefJSON.parse RefJSON.stringify sample_now ls)
     = List.filter (fun r => negb (expired sample_now r))
         [sample_old; sample_recent]
  /\ records (load RefJSON.parse RefJSON.stringify sample_now ls)
     = [sample_recent].
Proof.
  intros ls.
  assert (Hp : RefJSON.parse sample_stored = Some [sample_old; sample_recent])
    by (vm_compute; reflexivity).
  assert (Hs : ls !! LOCAL_STORAGE_KEY = Some sample_stored)
    by apply lookup_singleton_eq.
  split; [exact Hp|].
  pose proof (C1_load_drops_expired RefJSON.parse RefJSON.stringify
                eq_refl sample_now ls sample_stored _ Hs Hp) as [H _].
  split; [exact H|]. rewrite H. vm_compute. reflexivity.
Defined.

(** Text that is no JSON is removed from storage. *)
Lemma C2_malformed_is_removed_witness :
  let ls : gmap jsstring jsstring :=
    {[ LOCAL_STORAGE_KEY := json_text "{not json" ]} in
  let st' := load RefJSON.parse RefJSON.stringify sample_now ls in
  RefJSON.parse (json_text "{not json") = None
  /\ records st' = []
  /\ localStorage st' !! LOCAL_STORAGE_KEY = None.
Proof.
  intros ls st'.
  assert (Hp : RefJSON.parse (json_text "{not json") = None)
    by (vm_compute; reflexivity).
  assert (Hs : ls !! LOCAL_STORAGE_KEY = Some (json_text "{not json"))
    by apply lookup_singleton_eq.
  assert (Hne : json_text "{not json" <> [])
    by (vm_compute; discriminate).
  destruct (C2_malformed_is_removed RefJSON.parse RefJSON.stringify
              sample_now ls _ Hs Hne Hp) as (Hr & _ & Hd & _).
  split; [exact Hp|]. split; [exact Hr|exact Hd].
Defined.

(** C2 as stated fails on the text [{not json]: it does not parse, and
    after the load pass storage holds nothing under the key. An empty
    collection is stored as the text [[]]; that text is what a load pass
    over an expired collection writes, and it is not what is found here:
    [getItem] gives [null]. *)
Lemma C2_key_removed_not_emptied :
  let ls : gmap jsstring jsstring :=
    {[ LOCAL_STORAGE_KEY := json_text "{not json" ]} in
  let st' := load RefJSON.parse RefJSON.stringify sample_now ls in
  RefJSON.parse (json_text "{not json") = None
  /\ RefJSON.stringify [] = js "[]"
  /\ localStorage st' !! LOCAL_STORAGE_KEY = None
  /\ localStorage st' !! LOCAL_STORAGE_KEY <> Some (RefJSON.stringify [])
  /\ localStorage st' <> <[LOCAL_STORAGE_KEY := RefJSON.stringify []]> ls.
Proof.
  intros ls st'.
  assert (Hnone : localStorage st' !! LOCAL_STORAGE_KEY = None)
    by (vm_compute; reflexivity).
  split; [vm_compute; reflexivity|]. split; [vm_compute; reflexivity|].
  split; [exact Hnone|]. split; [rewrite Hnone; discriminate|].
  intros Heq. rewrite Heq, lookup_insert_eq in Hnone. discriminate.
Qed.

(** The scenario of the specification: three lines, the middle one
    empty, give two records, in the order of the lines. *)
Lemma C4_one_record_per_nonblank_line_witness :
  sample_input
  = join_lines [js "+1 (415) 555-2671"; []; js "  6281234567890  "]
  /\ exists new : list WhatsAppRecord,
       records (handleConvert RefJSON.stringify sample_now constant_random
                  sample_state)
       = new ++ records sample_state
       /\ length new = 2%nat
       /\ List.map original new
          = [js "+1 (415) 555-2671"; js "6281234567890"]
       /\ Forall (fun r => link r = link_prefix ++ sanitize (original r)) new.
Proof.
  split; [reflexivity|].
  assert (Hex : Exists (fun l => blank l = false)
                  [js "+1 (415) 555-2671"; []; js "  6281234567890  "])
    by (apply Exists_cons_hd; reflexivity).
  destruct (C4_one_record_per_nonblank_line RefJSON.stringify sample_now
              constant_random sample_state
              [js "+1 (415) 555-2671"; []; js "  6281234567890  "]
              eq_refl eq_refl Hex)
    as (new & Hrec & Hlen & Horig & Hlink & _).
  exists new. split; [exact Hrec|].
  split; [rewrite Hlen; reflexivity|].
  split; [rewrite Horig; vm_compute; reflexivity|exact Hlink].
Defined.

Lemma C5_submit_prepends_and_persists_witness :
  let st' :=
    handleConvert RefJSON.stringify sample_now constant_random sample_state in
  records st'
  = newRecords sample_now constant_random sample_input ++ [sample_recent]
  /\ localStorage st' !! LOCAL_STORAGE_KEY
     = Some (RefJSON.stringify (records st'))
  /\ (forall k, k <> LOCAL_STORAGE_KEY ->
                localStorage st' !! k = localStorage sample_state !! k)
  /\ inputNumbers st' = [].
Proof.
  apply (C5_submit_prepends_and_persists RefJSON.stringify sample_now
           constant_random sample_state).
  vm_compute. reflexivity.
Defined.

(** Three spaces in the input field: nothing happens. *)
Lemma C7_blank_submit_is_noop_witness :
  let st := {| inputNumbers := js "   ";
               records := records sample_state;
               localStorage := localStorage sample_state |} in
  let st' := handleConvert RefJSON.stringify sample_now constant_random st in
  st' = st
  /\ records st' = records st
  /\ localStorage st' = localStorage st
  /\ inputNumbers st' = inputNumbers st.
Proof.
  intros st.
  apply (C7_blank_submit_is_noop RefJSON.stringify sample_now
           constant_random st).
  vm_compute. reflexivity.
Defined.

Lemma C10_absent_key_untouched_witness :
  let st' := load RefJSON.parse RefJSON.stringify sample_now ∅ in
  localStorage st' = ∅
  /\ localStorage st' !! LOCAL_STORAGE_KEY = None
  /\ records st' = [].
Proof.
  apply (C10_absent_key_untouched RefJSON.parse RefJSON.stringify
           sample_now ∅).
  apply lookup_empty.
Defined.


(** * Further properties of the page *)

(** ** What a trimmed line looks like *)

Lemma trimStart_app_last (s : jsstring) (c : code_unit) :
  isWhiteSpace c = false -> trimStart (s ++ [c]) = trimStart s ++ [c].
Proof.
  intros Hc. induction s as [|d s IH]; simpl.
  - rewrite Hc. reflexivity.
  - destruct (isWhiteSpace d); [exact IH|reflexivity].
Qed.

Lemma trimStart_fixed (s : jsstring) :
  (forall c t, s = c :: t -> isWhiteSpace c = false) -> trimStart s = s.
Proof.
  destruct s as [|c t]; [reflexivity|]. intros H. simpl.
  rewrite (H c t eq_refl). reflexivity.
Qed.

Lemma trimStart_idempotent (s : jsstring) :
  trimStart (trimStart s) = trimStart s.
Proof.
  apply trimStart_fixed. intros c t H. exact (trimStart_head _ _ _ H).
Qed.

(** Trimming the end of a string that starts with no white space leaves
    a string that starts with no white space. *)
Lemma trimEnd_head (s : jsstring) (c : code_unit) (t : jsstring) :
  (forall d u, s = d :: u -> isWhiteSpace d = false) ->
  trimEnd s = c :: t -> isWhiteSpace c = false.
Proof.
  unfold trimEnd. destruct s as [|d u]; [discriminate|].
  intros Hd. specialize (Hd d u eq_refl). simpl rev.
  rewrite (trimStart_app_last _ _ Hd), rev_app_distr. simpl.
  intros [= <- _]. exact Hd.
Qed.

Lemma trim_idempotent (s : jsstring) : trim (trim s) = trim s.
Proof.
  unfold trim at 1.
  assert (H1 : trimStart (trim s) = trim s).
  { apply trimStart_fixed. intros c t Hct. unfold trim in Hct.
    refine (trimEnd_head _ _ _ _ Hct).
    intros d u Hd. exact (trimStart_head _ _ _ Hd). }
  rewrite H1. unfold trim, trimEnd.
  rewrite rev_involutive, trimStart_idempotent. reflexivity.
Qed.

Lemma trimStart_In (c : code_unit) (s : jsstring) :
  In c (trimStart s) -> In c s.
Proof.
  induction s as [|d s IH]; simpl; [tauto|].
  destruct (isWhiteSpace d); [tauto|]. simpl. tauto.
Qed.

Lemma trim_In (c : code_unit) (s : jsstring) : In c (trim s) -> In c s.
Proof.
  unfold trim, trimEnd. intros H. apply in_rev in H.
  apply trimStart_In in H. apply in_rev in H.
  exact (trimStart_In _ _ H).
Qed.

Lemma split_no_separator (sep : code_unit) (s : jsstring) :
  Forall (fun l => ~ In sep l) (split sep s).
Proof.
  induction s as [|c s IH]; simpl.
  - constructor; [tauto|constructor].
  - destruct (N.eqb_spec c sep) as [->|Hne].
    + constructor; [tauto|exact IH].
    + destruct (split sep s) as [|l ls]; inversion IH; subst.
      * constructor; [|constructor]. simpl. intros [?|[]]. congruence.
      * constructor; [|assumption]. simpl. intros [?|?]; [congruence|tauto].
Qed.

Lemma input_lines_shape (input : jsstring) :
  Forall (fun l => l <> [] /\ trim l = l /\ ~ In newline l)
    (input_lines input).
Proof.
  unfold input_lines. apply List.Forall_forall. intros l Hl.
  apply filter_In in Hl. destruct Hl as [Hin Hlen].
  apply in_map_iff in Hin. destruct Hin as (l0 & <- & Hin0).
  split; [|split].
  - intros Hnil. rewrite Hnil in Hlen. discriminate.
  - apply trim_idempotent.
  - intros Hnl. apply trim_In in Hnl.
    pose proof (split_no_separator newline input) as Hsep.
    rewrite List.Forall_forall in Hsep. exact (Hsep l0 Hin0 Hnl).
Qed.

Lemma imap_make_record_Forall_original (P : WhatsAppRecord -> Prop)
    (currentTime : Z) (l : list jsstring) :
  Forall (fun o => forall r, P (make_record currentTime r o)) l ->
  forall random : nat -> number,
    Forall P (imap (fun i o => make_record currentTime (random i) o) l).
Proof.
  induction l as [|o l IH]; intros HF random; simpl.
  - constructor.
  - inversion HF; subst. constructor; [auto|].
    apply (IH ltac:(assumption) (fun i => random (S i))).
Qed.

(** X1: every record a submission creates is well formed: its original is
    a non-empty line without leading or trailing white space and without
    a newline, and its link is derived from that original. *)
Theorem newRecords_well_formed (currentTime : Z) (random : nat -> number)
    (input : jsstring) :
  Forall (fun r => well_formed r /\ ~ In newline (original r))
    (newRecords currentTime random input).
Proof.
  unfold newRecords. apply imap_make_record_Forall_original.
  eapply Forall_impl; [apply input_lines_shape|]. cbv beta.
  intros o (Hne & Ht & Hnl) r. unfold well_formed. simpl.
  repeat split; assumption.
Qed.

(** ** What a link looks like *)

Lemma sanitize_length (s : jsstring) :
  (length (sanitize s) <= length s)%nat.
Proof.
  induction s as [|c s IH]; [reflexivity|]. rewrite sanitize_cons.
  destruct (isDigit c || (c =? plus_sign)); simpl; lia.
Qed.

(** X2: the link of every record a submission creates is the prefix
    [https://wa.me/] followed by digits and plus signs only, and by no
    more of them than the original has code units. *)
Theorem newRecords_link_shape (currentTime : Z) (random : nat -> number)
    (input : jsstring) :
  Forall (fun r => exists n : jsstring,
            link r = link_prefix ++ n
            /\ forallb digit_or_plus n = true
            /\ (length n <= length (original r))%nat)
    (newRecords currentTime random input).
Proof.
  unfold newRecords. apply imap_make_record_Forall. intros r o.
  exists (sanitize o). split; [reflexivity|].
  split; [apply sanitize_alphabet|apply sanitize_length].
Qed.

(** X3: sanitizing neither drops nor reorders digits: the digits of the
    sanitized number are the digits of the line, in order, and the
    sanitized number is a subsequence of the line. *)
Theorem sanitize_keeps_digits (s : jsstring) :
  List.filter isDigit (sanitize s) = List.filter isDigit s
  /\ sublist (sanitize s) s.
Proof.
  split.
  - induction s as [|c s IH]; [reflexivity|]. rewrite sanitize_cons.
    cbn [List.filter]. destruct (isDigit c) eqn:Hd; cbn [orb].
    + cbn [List.filter]. rewrite Hd, IH. reflexivity.
    + destruct (c =? plus_sign); cbn [List.filter]; [rewrite Hd|]; exact IH.
  - rewrite sanitize_filter. apply filter_sublist.
Qed.

(** X4: the numbers that sanitizing leaves as they are, are exactly the
    strings of digits and plus signs. *)
Theorem sanitize_fixed_iff (s : jsstring) :
  sanitize s = s <-> forallb digit_or_plus s = true.
Proof.
  split.
  - intros H. rewrite <- H. apply sanitize_alphabet.
  - induction s as [|c s IH]; [reflexivity|]. simpl.
    intros [Hc Hs]%andb_true_iff. rewrite sanitize_cons.
    unfold digit_or_plus in Hc. rewrite Hc, (IH Hs). reflexivity.
Qed.

(** ** Lines are converted independently *)

Lemma input_lines_app_newline (a b : jsstring) :
  input_lines (a ++ newline :: b) = input_lines a ++ input_lines b.
Proof.
  unfold input_lines.
  rewrite split_app_separator, List.map_app, List.filter_app. reflexivity.
Qed.

(** X5: converting two texts joined by a newline gives the records of the
    first text followed by the records of the second, the second text
    taking the draws of [Math.random()] that follow those of the first. *)
Theorem newRecords_app_newline (currentTime : Z) (random : nat -> number)
    (a b : jsstring) :
  newRecords currentTime random (a ++ newline :: b)
  = newRecords currentTime random a
    ++ newRecords currentTime
         (fun i => random (length (input_lines a) + i)%nat) b.
Proof.
  unfold newRecords. rewrite input_lines_app_newline, imap_app. reflexivity.
Qed.

(** ** Pressing the button *)

Lemma nonblank_input_has_line (input : jsstring) :
  blank input = false -> nonblank_lines input <> [].
Proof.
  rewrite blank_lines. unfold nonblank_lines.
  induction (split newline input) as [|l ls IH]; simpl; [discriminate|].
  destruct (blank l); simpl; [exact IH|discriminate].
Qed.

Section Button.

Variable JSON_stringify : list WhatsAppRecord -> jsstring.

(** X6: the handler changes the state exactly when the input is not
    blank, and then the collection gets strictly longer: a submission
    that passes the guard always adds a record. *)
Theorem handleConvert_changes_iff_nonblank (currentTime : Z)
    (random : nat -> number) (st : AppState) :
  let st' := handleConvert JSON_stringify currentTime random st in
  (st' = st <-> blank (inputNumbers st) = true)
  /\ (blank (inputNumbers st) = false ->
      (length (records st) < length (records st'))%nat).
Proof.
  cbv zeta.
  assert (Hgrow : blank (inputNumbers st) = false ->
    (length (records st)
     < length (records (handleConvert JSON_stringify currentTime random st)))%nat).
  { intros Hb. rewrite (handleConvert_nonblank _ _ _ _ Hb). cbn [records].
    rewrite length_app, newRecords_length.
    pose proof (nonblank_input_has_line _ Hb) as Hne.
    destruct (nonblank_lines (inputNumbers st)); [congruence|]. simpl. lia. }
  split; [|exact Hgrow]. split.
  - intros Heq. destruct (blank (inputNumbers st)) eqn:Hb; [reflexivity|].
    specialize (Hgrow eq_refl). rewrite Heq in Hgrow. lia.
  - apply handleConvert_blank.
Qed.

(** X7: pressing the button twice in a row is pressing it once, whatever
    the clock and [Math.random()] give the second time: the first press
    either did nothing or emptied the input field. *)
Theorem handleConvert_idempotent (t1 t2 : Z) (random1 random2 : nat -> number)
    (st : AppState) :
  handleConvert JSON_stringify t2 random2
    (handleConvert JSON_stringify t1 random1 st)
  = handleConvert JSON_stringify t1 random1 st.
Proof.
  destruct (blank (inputNumbers st)) eqn:Hb.
  - rewrite (handleConvert_blank _ t1 _ _ Hb).
    apply handleConvert_blank, Hb.
  - rewrite (handleConvert_nonblank _ t1 _ _ Hb).
    apply handleConvert_blank. reflexivity.
Qed.

Lemma StronglySorted_app_intro {A : Type} (R : A -> A -> Prop)
    (l1 l2 : list A) :
  StronglySorted R l1 -> StronglySorted R l2 ->
  (forall x y, In x l1 -> In y l2 -> R x y) ->
  StronglySorted R (l1 ++ l2).
Proof.
  intros H1 H2 H12. induction H1 as [|x l1 Hs IH Hx]; simpl; [exact H2|].
  constructor.
  - apply IH. intros a b Ha Hb. apply H12; [right; exact Ha|exact Hb].
  - apply List.Forall_forall. intros y Hy. apply in_app_or in Hy.
    destruct Hy as [Hy|Hy].
    + rewrite List.Forall_forall in Hx. apply Hx, Hy.
    + apply H12; [left; reflexivity|exact Hy].
Qed.

Lemma newRecords_same_time (currentTime : Z) (random : nat -> number)
    (input : jsstring) (r : WhatsAppRecord) :
  In r (newRecords currentTime random input) ->
  timestamp r = inject_Z currentTime.
Proof.
  intros Hin. pose proof (newRecords_fields currentTime random input) as HF.
  rewrite List.Forall_forall in HF. apply (HF r Hin).
Qed.

Lemma const_time_sorted (t : number) (l : list WhatsAppRecord) :
  (forall r, In r l -> timestamp r = t) -> newest_first l.
Proof.
  unfold newest_first. induction l as [|x l IH]; intros H; constructor.
  - apply IH. intros r Hr. apply H. right. exact Hr.
  - apply List.Forall_forall. intros y Hy.
    rewrite (H x (or_introl eq_refl)), (H y (or_intror Hy)). apply Qle_refl.
Qed.

(** X8: when the collection is ordered newest first and holds no record
    stamped later than the clock reads at the press, it is ordered newest
    first after the press as well, and still holds no record stamped
    later than that reading. *)
Theorem handleConvert_newest_first (currentTime : Z)
    (random : nat -> number) (st : AppState) :
  newest_first (records st) ->
  Forall (fun r => (timestamp r <= inject_Z currentTime)%Q) (records st) ->
  let st' := handleConvert JSON_stringify currentTime random st in
  newest_first (records st')
  /\ Forall (fun r => (timestamp r <= inject_Z currentTime)%Q) (records st').
Proof.
  intros Hs Hle. cbv zeta. destruct (blank (inputNumbers st)) eqn:Hb.
  - rewrite (handleConvert_blank _ _ _ _ Hb). split; assumption.
  - rewrite (handleConvert_nonblank _ _ _ _ Hb). cbn [records].
    pose proof (newRecords_same_time currentTime random (inputNumbers st))
      as Hnew.
    split.
    + apply StronglySorted_app_intro; [|exact Hs|].
      * apply (const_time_sorted (inject_Z currentTime)). exact Hnew.
      * intros x y Hx Hy. rewrite (Hnew x Hx).
        rewrite List.Forall_forall in Hle. apply Hle, Hy.
    + apply Forall_app. split; [|exact Hle].
      apply List.Forall_forall. intros r Hr. rewrite (Hnew r Hr).
      apply Qle_refl.
Qed.

End Button.

(** ** Expiry as time goes by *)

Lemma still_valid_earlier (t1 t2 : Z) (r : WhatsAppRecord) :
  (t1 <= t2)%Z -> still_valid t2 r = true -> still_valid t1 r = true.
Proof.
  intros Hle H2. apply still_valid_age. apply still_valid_age in H2.
  rewrite Zle_Qle in Hle. lra.
Qed.

Lemma filter_filter_implied {A : Type} (f g : A -> bool) (l : list A) :
  (forall x, f x = true -> g x = true) ->
  List.filter f (List.filter g l) = List.filter f l.
Proof.
  intros Himp. induction l as [|x l IH]; simpl; [reflexivity|].
  destruct (g x) eqn:Hg; simpl.
  - rewrite IH. reflexivity.
  - destruct (f x) eqn:Hf; [|exact IH].
    rewrite (Himp x Hf) in Hg. discriminate.
Qed.

(** X9: a record that is within its time to live at some moment was
    within it at every earlier moment; so expiring a collection at a time
    and again at a later time leaves what expiring it once, at the later
    time, leaves. *)
Theorem expiry_later_absorbs_earlier (t1 t2 : Z) (rs : list WhatsAppRecord) :
  (t1 <= t2)%Z ->
  List.filter (still_valid t2) (List.filter (still_valid t1) rs)
  = List.filter (still_valid t2) rs.
Proof.
  intros Hle. apply filter_filter_implied. intros r.
  apply still_valid_earlier, Hle.
Qed.

(** ** Sessions *)

Section Sessions.

Variable JSON_parse : jsstring -> option (list WhatsAppRecord).
Variable JSON_stringify : list WhatsAppRecord -> jsstring.

Lemma mountEffect_other_keys (currentTime : Z) (st : AppState)
    (k : jsstring) :
  k <> LOCAL_STORAGE_KEY ->
  localStorage (mountEffect JSON_parse JSON_stringify currentTime st) !! k
  = localStorage st !! k.
Proof.
  intros Hk. unfold mountEffect.
  destruct (localStorage st !! LOCAL_STORAGE_KEY) as [s|]; [|reflexivity].
  destruct (0 <? length s)%nat; [|reflexivity].
  destruct (JSON_parse s); cbn [localStorage].
  - apply lookup_insert_ne. congruence.
  - apply lookup_delete_ne. congruence.
Qed.

Lemma step_other_keys (st : AppState) (ev : Event) (k : jsstring) :
  k <> LOCAL_STORAGE_KEY ->
  localStorage (step JSON_stringify st ev) !! k = localStorage st !! k.
Proof.
  intros Hk. destruct ev as [value|currentTime random]; [reflexivity|].
  cbn [step]. destruct (blank (inputNumbers st)) eqn:Hb.
  - rewrite (handleConvert_blank _ _ _ _ Hb). reflexivity.
  - rewrite (handleConvert_nonblank _ _ _ _ Hb). cbn [localStorage].
    apply lookup_insert_ne. congruence.
Qed.

(** X10: the page reads and writes one key only: after the load pass and
    any events, every other key of storage holds what it held before the
    page was opened. *)
Theorem session_other_keys (ls : gmap jsstring jsstring) (mountTime : Z)
    (evs : list Event) (k : jsstring) :
  k <> LOCAL_STORAGE_KEY ->
  localStorage (session JSON_parse JSON_stringify ls mountTime evs) !! k
  = ls !! k.
Proof.
  intros Hk. unfold session.
  assert (H0 : localStorage (load JSON_parse JSON_stringify mountTime ls) !! k
               = ls !! k)
    by (apply (mountEffect_other_keys mountTime (initialState ls) k Hk)).
  revert H0. generalize (load JSON_parse JSON_stringify mountTime ls).
  induction evs as [|ev evs IH]; intros st Hst; simpl; [exact Hst|].
  apply IH. rewrite (step_other_keys _ _ _ Hk). exact Hst.
Qed.

Lemma step_records (st : AppState) (ev : Event) :
  exists added, records (step JSON_stringify st ev) = added ++ records st.
Proof.
  destruct ev as [value|currentTime random]; [exists []; reflexivity|].
  cbn [step]. destruct (blank (inputNumbers st)) eqn:Hb.
  - rewrite (handleConvert_blank _ _ _ _ Hb). exists []. reflexivity.
  - rewrite (handleConvert_nonblank _ _ _ _ Hb). cbn [records]. eauto.
Qed.

(** X11: no event after the load pass removes or reorders a record: at
    any point of a session the in-memory collection is the collection the
    load pass left, with the records added since in front of it. *)
Theorem session_records_only_grow (ls : gmap jsstring jsstring)
    (mountTime : Z) (evs : list Event) :
  exists added : list WhatsAppRecord,
    records (session JSON_parse JSON_stringify ls mountTime evs)
    = added ++ records (load JSON_parse JSON_stringify mountTime ls).
Proof.
  unfold session. generalize (load JSON_parse JSON_stringify mountTime ls).
  induction evs as [|ev evs IH]; intros st; simpl; [exists []; reflexivity|].
  destruct (IH (step JSON_stringify st ev)) as [a1 H1].
  destruct (step_records st ev) as [a2 H2].
  exists (a1 ++ a2). rewrite H1, H2. apply app_assoc.
Qed.

Lemma step_well_formed (st : AppState) (ev : Event) :
  Forall well_formed (records st) ->
  Forall well_formed (records (step JSON_stringify st ev)).
Proof.
  intros Hst. destruct ev as [value|currentTime random]; [exact Hst|].
  cbn [step]. destruct (blank (inputNumbers st)) eqn:Hb.
  - rewrite (handleConvert_blank _ _ _ _ Hb). exact Hst.
  - rewrite (handleConvert_nonblank _ _ _ _ Hb). cbn [records].
    apply Forall_app. split; [|exact Hst].
    eapply Forall_impl; [apply newRecords_well_formed|].
    cbv beta. tauto.
Qed.

(** X12: if every record the load pass keeps is well formed, every record
    in memory is well formed throughout the session: a non-empty trimmed
    original, and the link derived from it by sanitizing. *)
Theorem session_well_formed (ls : gmap jsstring jsstring) (mountTime : Z)
    (evs : list Event) :
  Forall well_formed (records (load JSON_parse JSON_stringify mountTime ls)) ->
  Forall well_formed
    (records (session JSON_parse JSON_stringify ls mountTime evs)).
Proof.
  unfold session. generalize (load JSON_parse JSON_stringify mountTime ls).
  induction evs as [|ev evs IH]; intros st Hst; simpl; [exact Hst|].
  apply IH, step_well_formed, Hst.
Qed.

(** X13: what the results area shows during such a session: the
    placeholder exactly when no record is in memory; otherwise a table
    with one row per record, in order, keyed by the record ids, where
    each row's anchor points to the prefix followed by the sanitized
    text of its first cell, shows that address as its text, and hands
    the same address to the Copy button. *)
Theorem session_view (ls : gmap jsstring jsstring) (mountTime : Z)
    (evs : list Event) :
  Forall well_formed (records (load JSON_parse JSON_stringify mountTime ls)) ->
  let rs := records (session JSON_parse JSON_stringify ls mountTime evs) in
  match render_results rs with
  | NoLinksYet => rs = []
  | Table rows =>
      rows <> []
      /\ List.map key rows = List.map id rs
      /\ List.map original_cell rows = List.map original rs
      /\ Forall (fun row =>
           href row = link_prefix ++ sanitize (original_cell row)
           /\ link_text row = href row
           /\ copy_argument row = href row) rows
  end.
Proof.
  intros Hload rs. pose proof (session_well_formed ls mountTime evs Hload)
    as Hwf. fold rs in Hwf. clearbody rs. unfold render_results.
  destruct rs as [|r rs]; [reflexivity|]. cbn [length Nat.ltb Nat.leb].
  split; [discriminate|].
  split; [rewrite List.map_map; reflexivity|].
  split; [rewrite List.map_map; reflexivity|].
  apply List.Forall_map. eapply Forall_impl; [exact Hwf|].
  cbv beta. intros x (_ & _ & Hl). cbn [render_row href link_text
    copy_argument original_cell]. rewrite Hl. repeat split.
Qed.

(** *** Coming back to the page *)

Hypothesis JSON_parse_empty : JSON_parse [] = None.

Lemma still_valid_at (currentTime t : Z) (r : WhatsAppRecord) :
  timestamp r = inject_Z t ->
  still_valid currentTime r = (currentTime - t <? 86400000)%Z.
Proof.
  intros Ht. destruct (Z.ltb_spec (currentTime - t) 86400000) as [Hlt|Hge].
  - apply still_valid_age. rewrite Ht. rewrite Zlt_Qlt in Hlt.
    unfold Z.sub in Hlt. rewrite inject_Z_plus, inject_Z_opp in Hlt. lra.
  - apply not_true_is_false. intros Hv. apply still_valid_age in Hv.
    rewrite Ht in Hv. rewrite Zle_Qle in Hge.
    unfold Z.sub in Hge. rewrite inject_Z_plus, inject_Z_opp in Hge. lra.
Qed.

Lemma filter_const {A : Type} (f : A -> bool) (b : bool) (l : list A) :
  (forall x, In x l -> f x = b) ->
  List.filter f l = if b then l else [].
Proof.
  induction l as [|x l IH]; intros H; simpl; [destruct b; reflexivity|].
  rewrite (H x (or_introl eq_refl)), IH
    by (intros y Hy; apply H; right; exact Hy).
  destruct b; reflexivity.
Qed.

(** X14: records last 24 hours across visits. After a submission at time
    [t] that passes the guard, a load pass at time [t'] over the storage
    it left brings all the new records back, in front, when
    [t' - t < 86400000], and none of them otherwise; the older records
    are expired on their own timestamps. The host's codec is taken to
    read back the collection the submission wrote. *)
Theorem submit_then_load (t t' : Z) (random : nat -> number)
    (st : AppState) :
  blank (inputNumbers st) = false ->
  let st' := handleConvert JSON_stringify t random st in
  JSON_parse (JSON_stringify (records st')) = Some (records st') ->
  records (load JSON_parse JSON_stringify t' (localStorage st'))
  = (if (t' - t <? 86400000)%Z
     then newRecords t random (inputNumbers st) else [])
    ++ List.filter (still_valid t') (records st).
Proof.
  intros Hb. cbv zeta. rewrite (handleConvert_nonblank _ _ _ _ Hb).
  cbn [records localStorage]. intros Hrt.
  rewrite (load_parseable JSON_parse JSON_stringify JSON_parse_empty t' _ _ _
             (lookup_insert_eq _ _ _) Hrt).
  cbn [records]. rewrite List.filter_app. f_equal.
  apply filter_const. intros r Hr. apply still_valid_at.
  exact (newRecords_same_time _ _ _ _ Hr).
Qed.

(** X15: a second load pass hides the first. Loading at [t2] over the
    storage that a load at an earlier time [t1] left gives the state that
    loading at [t2] over the original storage gives -- in particular the
    mount effect run twice at one time is the mount effect run once. The
    host's codec is taken to read back what the first pass wrote. *)
Theorem load_after_load (t1 t2 : Z) (ls : gmap jsstring jsstring) :
  (t1 <= t2)%Z ->
  let st1 := load JSON_parse JSON_stringify t1 ls in
  JSON_parse (JSON_stringify (records st1)) = Some (records st1) ->
  load JSON_parse JSON_stringify t2 (localStorage st1)
  = load JSON_parse JSON_stringify t2 ls.
Proof.
  intros Hle. cbv zeta.
  destruct (ls !! LOCAL_STORAGE_KEY) as [s|] eqn:Hs.
  - destruct (JSON_parse s) as [rs|] eqn:Hp.
    + rewrite (load_parseable _ _ JSON_parse_empty t1 _ _ _ Hs Hp).
      cbn [records localStorage]. intros Hrt.
      rewrite (load_parseable _ _ JSON_parse_empty t2 _ _ _
                 (lookup_insert_eq _ _ _) Hrt).
      rewrite (load_parseable _ _ JSON_parse_empty t2 _ _ _ Hs Hp).
      rewrite (expiry_later_absorbs_earlier _ _ _ Hle), insert_insert_eq.
      reflexivity.
    + intros _. destruct s as [|c s].
      * rewrite (load_empty_string _ _ t1 _ Hs). reflexivity.
      * rewrite (load_unparseable _ _ t1 _ _ Hs ltac:(discriminate) Hp).
        rewrite (load_unparseable _ _ t2 _ _ Hs ltac:(discriminate) Hp).
        cbn [localStorage]. apply load_absent, lookup_delete_eq.
  - intros _. rewrite (load_absent _ _ t1 _ Hs). reflexivity.
Qed.

End Sessions.

(** ** The further properties on the sample data *)

Lemma sample_load_records :
  records (load RefJSON.parse RefJSON.stringify sample_now
             {[ LOCAL_STORAGE_KEY := sample_stored ]})
  = [sample_recent].
Proof. vm_compute. reflexivity. Defined.

Lemma sample_recent_well_formed : well_formed sample_recent.
Proof.
  unfold well_formed. split; [discriminate|].
  split; vm_compute; reflexivity.
Defined.

Lemma handleConvert_newest_first_witness :
  let st' :=
    handleConvert RefJSON.stringify sample_now constant_random sample_state in
  newest_first (records st')
  /\ Forall (fun r => (timestamp r <= inject_Z sample_now)%Q) (records st').
Proof.
  apply (handleConvert_newest_first RefJSON.stringify sample_now
           constant_random sample_state).
  - repeat constructor.
  - constructor; [|constructor]. vm_compute. discriminate.
Defined.

Lemma expiry_later_absorbs_earlier_witness :
  List.filter (still_valid (sample_now + 1))
    (List.filter (still_valid sample_now) [sample_old; sample_recent])
  = List.filter (still_valid (sample_now + 1)) [sample_old; sample_recent].
Proof.
  apply (expiry_later_absorbs_earlier sample_now (sample_now + 1)).
  unfold sample_now. lia.
Defined.

(** Another key of the same origin is left alone by a whole session. *)
Lemma session_other_keys_witness :
  localStorage
    (session RefJSON.parse RefJSON.stringify
       (<[js "theme" := js "dark"]> {[ LOCAL_STORAGE_KEY := sample_stored ]})
       sample_now sample_events) !! js "theme"
  = Some (js "dark").
Proof.
  rewrite (session_other_keys RefJSON.parse RefJSON.stringify
             (<[js "theme" := js "dark"]>
                {[ LOCAL_STORAGE_KEY := sample_stored ]})
             sample_now sample_events (js "theme")).
  - apply lookup_insert_eq.
  - intros H. vm_compute in H. discriminate.
Defined.

Lemma session_well_formed_witness :
  Forall well_formed
    (records (session RefJSON.parse RefJSON.stringify
                {[ LOCAL_STORAGE_KEY := sample_stored ]} sample_now
                sample_events)).
Proof.
  apply (session_well_formed RefJSON.parse RefJSON.stringify
           {[ LOCAL_STORAGE_KEY := sample_stored ]} sample_now sample_events).
  rewrite sample_load_records.
  constructor; [exact sample_recent_well_formed|constructor].
Defined.

Lemma session_view_witness :
  let rs := records (session RefJSON.parse RefJSON.stringify
                       {[ LOCAL_STORAGE_KEY := sample_stored ]} sample_now
                       sample_events) in
  match render_results rs with
  | NoLinksYet => rs = []
  | Table rows =>
      rows <> []
      /\ List.map key rows = List.map id rs
      /\ List.map original_cell rows = List.map original rs
      /\ Forall (fun row =>
           href row = link_prefix ++ sanitize (original_cell row)
           /\ link_text row = href row
           /\ copy_argument row = href row) rows
  end.
Proof.
  apply (session_view RefJSON.parse RefJSON.stringify
           {[ LOCAL_STORAGE_KEY := sample_stored ]} sample_now sample_events).
  rewrite sample_load_records.
  constructor; [exact sample_recent_well_formed|constructor].
Defined.

(** Coming back an hour after the sample submission: its two records are
    there, before the older one. *)
Lemma submit_then_load_witness :
  let st' :=
    handleConvert RefJSON.stringify sample_now constant_random sample_state in
  records (load RefJSON.parse RefJSON.stringify (sample_now + 3600000)
             (localStorage st'))
  = (if (sample_now + 3600000 - sample_now <? 86400000)%Z
     then newRecords sample_now constant_random (inputNumbers sample_state)
     else [])
    ++ List.filter (still_valid (sample_now + 3600000)) (records sample_state).
Proof.
  apply (submit_then_load RefJSON.parse RefJSON.stringify eq_refl
           sample_now (sample_now + 3600000) constant_random sample_state).
  - vm_compute. reflexivity.
  - vm_compute. reflexivity.
Defined.

Lemma load_after_load_witness :
  load RefJSON.parse RefJSON.stringify (sample_now + 1000)
    (localStorage (load RefJSON.parse RefJSON.stringify sample_now
                     {[ LOCAL_STORAGE_KEY := sample_stored ]}))
  = load RefJSON.parse RefJSON.stringify (sample_now + 1000)
      {[ LOCAL_STORAGE_KEY := sample_stored ]}.
Proof.
  apply (load_after_load RefJSON.parse RefJSON.stringify eq_refl
           sample_now (sample_now + 1000)
           {[ LOCAL_STORAGE_KEY := sample_stored ]}).
  - unfold sample_now. lia.
  - vm_compute. reflexivity.
Defined.
